(** * share-screen: the session store and the handshake policy

    A shallow embedding of
    - [pkg/domain/entities/session.go] and [webrtc.go] (the entities),
    - the in-memory [MemorySessionRepository] (the session store), and
    - the [SessionUseCase] (the handshake policy),
    with the claims of the specification stated and settled against it.

    Modelling choices.
    - A [time.Time] is a [Z] (nanoseconds); [t.Add d] is [t + d] and
      [t.After u] is [u < t].  [time.Now()] is an explicit argument [now]
      of every operation; the calls to [time.Now()] made during one
      operation are read as the same instant.
    - The [map[string]*entities.Session] is a [gmap string Session].  The
      repository copies sessions in and out ([GetSession] and
      [UpdateSession] copy the offer and the answer), so no pointer is
      shared between the store and its callers and a stored session is a
      plain value.
    - A Go pointer that may be [nil] ([*WebRTCOffer], [*WebRTCAnswer]) is an
      [option].
    - [generateToken] draws 9 random bytes; its outcome is an explicit
      input [gen : option string] ([None]: the entropy source failed). *)

From stdpp Require Import base gmap strings list fin_maps.
From Stdlib Require Strings.Byte Strings.Ascii.

(** ** Entities ([pkg/domain/entities]) *)

Record WebRTCOffer := mkOffer { offer_Type : string; offer_SDP : string }.
Record WebRTCAnswer := mkAnswer { answer_Type : string; answer_SDP : string }.

Inductive SessionStatus :=
| SessionStatusPending
| SessionStatusActive
| SessionStatusCompleted
| SessionStatusExpired.

Record Session := mkSession {
  Token : string;
  Offer : option WebRTCOffer;
  Answer : option WebRTCAnswer;
  CreatedAt : Z;
  ExpiresAt : Z;
  Status : SessionStatus
}.

Definition status_eqb (a b : SessionStatus) : bool :=
  match a, b with
  | SessionStatusPending, SessionStatusPending
  | SessionStatusActive, SessionStatusActive
  | SessionStatusCompleted, SessionStatusCompleted
  | SessionStatusExpired, SessionStatusExpired => true
  | _, _ => false
  end.

(** [func (s *Session) IsExpired() bool { return time.Now().After(s.ExpiresAt) }] *)
Definition IsExpired (now : Z) (s : Session) : bool := (ExpiresAt s <? now)%Z.

(** [s.Status == SessionStatusActive && !s.IsExpired()] *)
Definition IsActive (now : Z) (s : Session) : bool :=
  status_eqb (Status s) SessionStatusActive && negb (IsExpired now s).

(** [s.Status == SessionStatusPending && !s.IsExpired()] *)
Definition CanAcceptOffer (now : Z) (s : Session) : bool :=
  status_eqb (Status s) SessionStatusPending && negb (IsExpired now s).

(** [s.Offer != nil && s.Answer == nil && !s.IsExpired()] *)
Definition CanAcceptAnswer (now : Z) (s : Session) : bool :=
  match Offer s, Answer s with
  | Some _, None => negb (IsExpired now s)
  | _, _ => false
  end.

Definition string_nonempty (x : string) : bool :=
  match x with EmptyString => false | _ => true end.

(** [o != nil && o.Type != "" && o.SDP != ""] *)
Definition Offer_IsValid (o : option WebRTCOffer) : bool :=
  match o with
  | Some o => string_nonempty (offer_Type o) && string_nonempty (offer_SDP o)
  | None => false
  end.

(** [a != nil && a.Type != "" && a.SDP != ""] *)
Definition Answer_IsValid (a : option WebRTCAnswer) : bool :=
  match a with
  | Some a => string_nonempty (answer_Type a) && string_nonempty (answer_SDP a)
  | None => false
  end.

(** Record updates used where the source assigns one field. *)
Definition set_Offer (s : Session) (o : option WebRTCOffer) : Session :=
  mkSession (Token s) o (Answer s) (CreatedAt s) (ExpiresAt s) (Status s).
Definition set_Answer (s : Session) (a : option WebRTCAnswer) : Session :=
  mkSession (Token s) (Offer s) a (CreatedAt s) (ExpiresAt s) (Status s).
Definition set_Status (s : Session) (st : SessionStatus) : Session :=
  mkSession (Token s) (Offer s) (Answer s) (CreatedAt s) (ExpiresAt s) st.

(** ** The session store ([MemorySessionRepository]) *)

Abbreviation store := (gmap string Session).

Inductive RepoError := RepoErrSessionNotFound.

Inductive result (A E : Type) := Ok (a : A) | Err (e : E).
Arguments Ok {A E} a.
Arguments Err {A E} e.

(** [CreateSession]: draws a token, builds a pending session and stores it
    with [r.sessions[token] = session]; returns the session.  [None]: the
    entropy source failed, the store is unchanged. *)
Definition CreateSession (st : store) (now ttl : Z) (gen : option string)
    : store * option Session :=
  match gen with
  | None => (st, None)
  | Some token =>
      let session := mkSession token None None now (now + ttl)%Z
                       SessionStatusPending in
      (<[token := session]> st, Some session)
  end.

(** [GetSession]: [session, exists := r.sessions[token]]; no expiry check. *)
Definition GetSession (st : store) (token : string) : result Session RepoError :=
  match st !! token with
  | Some s => Ok s
  | None => Err RepoErrSessionNotFound
  end.

(** [UpdateSession]: keyed by [session.Token]; fails if that key is absent,
    otherwise replaces the stored copy. *)
Definition UpdateSession (st : store) (s : Session) : result store RepoError :=
  match st !! Token s with
  | None => Err RepoErrSessionNotFound
  | Some _ => Ok (<[Token s := s]> st)
  end.

(** [DeleteSession]: [delete(r.sessions, token)]. *)
Definition DeleteSession (st : store) (token : string) : store :=
  delete token st.

(** The first loop of [CleanupExpiredSessions]: the tokens of the expired
    sessions, in the map's iteration order. *)
Fixpoint collect_expired (now : Z) (l : list (string * Session)) : list string :=
  match l with
  | [] => []
  | (token, session) :: l' =>
      if IsExpired now session then token :: collect_expired now l'
      else collect_expired now l'
  end.

(** [CleanupExpiredSessions]: collect, then delete each collected token;
    returns the new store and [len(expiredTokens)]. *)
Definition CleanupExpiredSessions (st : store) (now : Z) : store * nat :=
  let expiredTokens := collect_expired now (map_to_list st) in
  (foldr delete st expiredTokens, length expiredTokens).

(** [GetActiveSessionsCount]. *)
Definition GetActiveSessionsCount (st : store) (now : Z) : nat :=
  length (List.filter (fun kv => IsActive now kv.2) (map_to_list st)).

(** ** The handshake policy ([SessionUseCase]) *)

(** The errors of [usecases]; [ErrCannotAcceptOffer] is the ad hoc
    [errors.New("session cannot accept offer")], and [ErrRepo] an error of
    [UpdateSession] returned as it is. *)
Inductive UCError :=
| ErrSessionNotFound
| ErrSessionExpired
| ErrInvalidOffer
| ErrInvalidAnswer
| ErrOfferNotFound
| ErrAnswerNotFound
| ErrAnswerAlreadyExists
| ErrSessionNotReady
| ErrCannotAcceptOffer
| ErrRepo (e : RepoError).

(** [SubmitOffer]: returns the new store and the returned [error]
    ([None] for [nil]). *)
Definition SubmitOffer (st : store) (now : Z) (token : string)
    (offer : option WebRTCOffer) : store * option UCError :=
  if negb (Offer_IsValid offer) then (st, Some ErrInvalidOffer) else
  match GetSession st token with
  | Err _ => (st, Some ErrSessionNotFound)
  | Ok session =>
      if IsExpired now session then (st, Some ErrSessionExpired) else
      if negb (CanAcceptOffer now session) then (st, Some ErrCannotAcceptOffer) else
      let session := set_Status (set_Offer session offer) SessionStatusActive in
      match UpdateSession st session with
      | Err e => (st, Some (ErrRepo e))
      | Ok st' => (st', None)
      end
  end.

(** [GetOffer]: read only. *)
Definition GetOffer (st : store) (now : Z) (token : string)
    : result WebRTCOffer UCError :=
  match GetSession st token with
  | Err _ => Err ErrSessionNotFound
  | Ok session =>
      if IsExpired now session then Err ErrSessionExpired else
      match Offer session with
      | None => Err ErrOfferNotFound
      | Some o => Ok o
      end
  end.

(** [SubmitAnswer]. *)
Definition SubmitAnswer (st : store) (now : Z) (token : string)
    (answer : option WebRTCAnswer) : store * option UCError :=
  if negb (Answer_IsValid answer) then (st, Some ErrInvalidAnswer) else
  match GetSession st token with
  | Err _ => (st, Some ErrSessionNotFound)
  | Ok session =>
      if IsExpired now session then (st, Some ErrSessionExpired) else
      if negb (CanAcceptAnswer now session) then
        match Answer session with
        | Some _ => (st, Some ErrAnswerAlreadyExists)
        | None => (st, Some ErrSessionNotReady)
        end
      else
      let session := set_Answer session answer in
      match UpdateSession st session with
      | Err e => (st, Some (ErrRepo e))
      | Ok st' => (st', None)
      end
  end.

(** [GetAnswer]: read only. *)
Definition GetAnswer (st : store) (now : Z) (token : string)
    : result WebRTCAnswer UCError :=
  match GetSession st token with
  | Err _ => Err ErrSessionNotFound
  | Ok session =>
      if IsExpired now session then Err ErrSessionExpired else
      match Answer session with
      | None => Err ErrAnswerNotFound
      | Some a => Ok a
      end
  end.

(** ** Runs of the system

    Every way the store changes: a request of the HTTP layer (create,
    submit or read an offer or an answer), an explicit deletion, or a run
    of the periodic sweep. *)
Inductive Op :=
| OpCreate (now ttl : Z) (gen : option string)
| OpSubmitOffer (now : Z) (token : string) (offer : option WebRTCOffer)
| OpGetOffer (now : Z) (token : string)
| OpSubmitAnswer (now : Z) (token : string) (answer : option WebRTCAnswer)
| OpGetAnswer (now : Z) (token : string)
| OpDelete (token : string)
| OpCleanup (now : Z).

Definition run_op (st : store) (op : Op) : store :=
  match op with
  | OpCreate now ttl gen => (CreateSession st now ttl gen).1
  | OpSubmitOffer now t o => (SubmitOffer st now t o).1
  | OpGetOffer _ _ | OpGetAnswer _ _ => st
  | OpSubmitAnswer now t a => (SubmitAnswer st now t a).1
  | OpDelete t => DeleteSession st t
  | OpCleanup now => (CleanupExpiredSessions st now).1
  end.

Definition run_ops (st : store) (ops : list Op) : store :=
  fold_left run_op ops st.

(** The states reachable from the empty store of
    [NewMemorySessionRepository]. *)
Definition reachable (st : store) : Prop := exists ops, run_ops ∅ ops = st.

(** Whether an operation draws the token [t] at creation. *)
Definition creates_token (t : string) (op : Op) : bool :=
  match op with
  | OpCreate _ _ (Some t') => bool_decide (t' = t)
  | _ => false
  end.

(** ** Token generation ([generateToken])

    [generateToken] fills 9 bytes from [crypto/rand] and returns
    [base64.RawURLEncoding.EncodeToString(b)].  The encoder below follows
    [Encoding.Encode] of Go's [encoding/base64]: full 3-byte groups give 4
    characters, a trailing group of 2 bytes gives 3 and of 1 byte gives 2
    (no padding for [RawURLEncoding]), each character being
    [enc.encode[val>>k&0x3F]] in the URL-safe alphabet. *)

Definition encodeURL : string :=
  "ABCDEFGHIJKLMNOPQRSTUVWXYZabcdefghijklmnopqrstuvwxyz0123456789-_".

(** [enc.encode[i]]: the index is always below 64 (it is masked with
    [0x3F]); the default is never used there. *)
Definition enc_char (i : Z) : Ascii.ascii :=
  nth (Z.to_nat i) (String.list_ascii_of_string encodeURL) (Ascii.ascii_of_nat 65).

Definition byte_val (b : Byte.byte) : Z := Z.of_N (Byte.to_N b).

Fixpoint b64_encode (src : list Byte.byte) : list Ascii.ascii :=
  match src with
  | b0 :: b1 :: b2 :: rest =>
      let val := Z.lor (Z.lor (Z.shiftl (byte_val b0) 16) (Z.shiftl (byte_val b1) 8))
                       (byte_val b2) in
      enc_char (Z.land (Z.shiftr val 18) 63) ::
      enc_char (Z.land (Z.shiftr val 12) 63) ::
      enc_char (Z.land (Z.shiftr val 6) 63) ::
      enc_char (Z.land val 63) :: b64_encode rest
  | [b0; b1] =>
      let val := Z.lor (Z.shiftl (byte_val b0) 16) (Z.shiftl (byte_val b1) 8) in
      [enc_char (Z.land (Z.shiftr val 18) 63);
       enc_char (Z.land (Z.shiftr val 12) 63);
       enc_char (Z.land (Z.shiftr val 6) 63)]
  | [b0] =>
      let val := Z.shiftl (byte_val b0) 16 in
      [enc_char (Z.land (Z.shiftr val 18) 63);
       enc_char (Z.land (Z.shiftr val 12) 63)]
  | [] => []
  end.

(** [base64.RawURLEncoding.EncodeToString]. *)
Definition EncodeToString (src : list Byte.byte) : string :=
  String.string_of_list_ascii (b64_encode src).

(** [RawURLEncoding.EncodedLen(n)]: [n/3*4 + (n%3*8+5)/6]. *)
Definition EncodedLen (n : nat) : nat := n / 3 * 4 + (n mod 3 * 8 + 5) / 6.

(** [generateToken]: [rnd] is the outcome of [rand.Read] on the 9-byte
    buffer ([None]: the read failed and the error is returned). *)
Definition generateToken (rnd : option (list Byte.byte)) : option string :=
  match rnd with
  | None => None
  | Some b => Some (EncodeToString b)
  end.

(** ** The HTTP layer ([pkg/presentation/http/api_handlers.go])

    A request body is already decoded: [Err msg] stands for a failed
    [json.NewDecoder(r.Body).Decode] with error text [msg].  A handler's
    outcome is a status code and a body, or a runtime panic: the handlers
    slice [token[:8]] for logging, which panics on a token shorter than 8
    bytes (net/http recovers the panic and drops the connection).  Writes
    to the client are taken to succeed: the branches taken when
    [json.NewEncoder(w).Encode] fails are not modelled. *)

Record SubmitOfferRequest := mkSubmitOfferRequest {
  sor_Token : string; sor_Offer : option WebRTCOffer }.
Record SubmitAnswerRequest := mkSubmitAnswerRequest {
  sar_Token : string; sar_Answer : option WebRTCAnswer }.

Inductive Method := MethodGet | MethodPost | MethodOther (m : string).

Inductive Body :=
| NoBody
| ErrorBody (msg : string)
| TokenBody (token : string)
| OfferBody (o : WebRTCOffer)
| AnswerBody (a : WebRTCAnswer).

Inductive HttpResponse := Respond (code : Z) (body : Body) | Panic.

(** [token[:8]] is in range. *)
Definition slice8_ok (token : string) : bool := 8 <=? String.length token.

(** [handleUseCaseError]: the [switch] compares error values, so the ad hoc
    "cannot accept offer" error and the repository's own
    [ErrSessionNotFound] fall to the default branch. *)
Definition handleUseCaseError (e : UCError) : HttpResponse :=
  match e with
  | ErrSessionNotFound => Respond 404 (ErrorBody "session not found")
  | ErrSessionExpired => Respond 410 (ErrorBody "session expired")
  | ErrInvalidOffer => Respond 400 (ErrorBody "invalid offer")
  | ErrInvalidAnswer => Respond 400 (ErrorBody "invalid answer")
  | ErrOfferNotFound => Respond 404 (ErrorBody "offer not found")
  | ErrAnswerNotFound => Respond 404 (ErrorBody "answer not found")
  | ErrAnswerAlreadyExists => Respond 409 (ErrorBody "answer already exists")
  | ErrSessionNotReady => Respond 400 (ErrorBody "session not ready")
  | ErrCannotAcceptOffer | ErrRepo _ =>
      Respond 500 (ErrorBody "internal server error")
  end.

Definition handleSubmitOffer (st : store) (now : Z)
    (req : result SubmitOfferRequest string) : store * HttpResponse :=
  match req with
  | Err msg => (st, Respond 400 (ErrorBody msg))
  | Ok r =>
      if negb (slice8_ok (sor_Token r)) then (st, Panic) else
      match SubmitOffer st now (sor_Token r) (sor_Offer r) with
      | (st', Some e) => (st', handleUseCaseError e)
      | (st', None) => (st', Respond 204 NoBody)
      end
  end.

Definition handleGetOffer (st : store) (now : Z) (token : string) : HttpResponse :=
  if negb (slice8_ok token) then Panic else
  match GetOffer st now token with
  | Err e => handleUseCaseError e
  | Ok o => Respond 200 (OfferBody o)
  end.

Definition handleSubmitAnswer (st : store) (now : Z)
    (req : result SubmitAnswerRequest string) : store * HttpResponse :=
  match req with
  | Err msg => (st, Respond 400 (ErrorBody msg))
  | Ok r =>
      if negb (slice8_ok (sar_Token r)) then (st, Panic) else
      match SubmitAnswer st now (sar_Token r) (sar_Answer r) with
      | (st', Some e) => (st', handleUseCaseError e)
      | (st', None) => (st', Respond 204 NoBody)
      end
  end.

Definition handleGetAnswer (st : store) (now : Z) (token : string) : HttpResponse :=
  if negb (slice8_ok token) then Panic else
  match GetAnswer st now token with
  | Err e => handleUseCaseError e
  | Ok a => Respond 200 (AnswerBody a)
  end.

(** [HandleOffer]: POST submits, GET reads the [token] query parameter
    (the empty string when absent), anything else is refused. *)
Definition HandleOffer (st : store) (now : Z) (m : Method)
    (body : result SubmitOfferRequest string) (query_token : string)
    : store * HttpResponse :=
  match m with
  | MethodPost => handleSubmitOffer st now body
  | MethodGet => (st, handleGetOffer st now query_token)
  | MethodOther _ => (st, Respond 405 (ErrorBody "method not allowed"))
  end.



(** the response code of a handler outcome *)
Definition resp_code (r : HttpResponse) : option Z :=
  match r with Respond c _ => Some c | Panic => None end.

(** ** Invariants of the reachable states *)

(** Every session is stored under its own token ([UpdateSession] writes at
    [session.Token], so this is what makes the policy write back where it
    read). *)
Definition KeyInv (st : store) : Prop :=
  map_Forall (fun k s => Token s = k) st.

(** The handshake order: an answer only with an offer, and an offer only in
    an [Active] session. *)
Definition HandshakeInv (st : store) : Prop :=
  map_Forall (fun _ s => (Answer s <> None -> Offer s <> None) /\
                         (Offer s <> None -> Status s = SessionStatusActive)) st.

(** ** Lemmas *)

Lemma IsExpired_false_iff now s : IsExpired now s = false <-> (now <= ExpiresAt s)%Z.
Proof. unfold IsExpired. rewrite Z.ltb_ge. lia. Qed.

Lemma SubmitOffer_error_unchanged st now t o st' e :
  SubmitOffer st now t o = (st', Some e) -> st' = st.
Proof.
  unfold SubmitOffer, GetSession, UpdateSession.
  destruct (Offer_IsValid o); simpl; [|congruence].
  destruct (st !! t); [|congruence].
  destruct (IsExpired now s); [congruence|].
  destruct (CanAcceptOffer now s); simpl; [|congruence].
  destruct (st !! _); congruence.
Qed.

Lemma SubmitAnswer_error_unchanged st now t a st' e :
  SubmitAnswer st now t a = (st', Some e) -> st' = st.
Proof.
  unfold SubmitAnswer, GetSession, UpdateSession.
  destruct (Answer_IsValid a); simpl; [|congruence].
  destruct (st !! t); [|congruence].
  destruct (IsExpired now s); [congruence|].
  destruct (CanAcceptAnswer now s); simpl; [|destruct (Answer s); congruence].
  destruct (st !! _); congruence.
Qed.

(** A successful [SubmitOffer] in a store satisfying [KeyInv]. *)
Lemma SubmitOffer_success st now t o st' :
  KeyInv st -> SubmitOffer st now t o = (st', None) ->
  exists s, st !! t = Some s /\ Offer_IsValid o = true /\
    CanAcceptOffer now s = true /\
    st' = <[t := set_Status (set_Offer s o) SessionStatusActive]> st.
Proof.
  intros Hk. unfold SubmitOffer, GetSession, UpdateSession.
  destruct (Offer_IsValid o) eqn:Hv; simpl; [|congruence].
  destruct (st !! t) as [s|] eqn:Hs; [|congruence].
  destruct (IsExpired now s); [congruence|].
  destruct (CanAcceptOffer now s) eqn:Hc; simpl; [|congruence].
  assert (Token s = t) as Ht by exact (Hk t s Hs).
  rewrite Ht, Hs. intros [= <-]. eauto 6.
Qed.

(** A successful [SubmitAnswer] in a store satisfying [KeyInv]. *)
Lemma SubmitAnswer_success st now t a st' :
  KeyInv st -> SubmitAnswer st now t a = (st', None) ->
  exists s, st !! t = Some s /\ Answer_IsValid a = true /\
    CanAcceptAnswer now s = true /\
    st' = <[t := set_Answer s a]> st.
Proof.
  intros Hk. unfold SubmitAnswer, GetSession, UpdateSession.
  destruct (Answer_IsValid a) eqn:Hv; simpl; [|congruence].
  destruct (st !! t) as [s|] eqn:Hs; [|congruence].
  destruct (IsExpired now s); [congruence|].
  destruct (CanAcceptAnswer now s) eqn:Hc; simpl; [|destruct (Answer s); congruence].
  assert (Token s = t) as Ht by exact (Hk t s Hs).
  rewrite Ht, Hs. intros [= <-]. eauto 6.
Qed.

Lemma SubmitOffer_cases st now t o :
  KeyInv st ->
  (SubmitOffer st now t o).1 = st \/
  exists s, st !! t = Some s /\ Offer_IsValid o = true /\
    CanAcceptOffer now s = true /\
    (SubmitOffer st now t o).1 =
      <[t := set_Status (set_Offer s o) SessionStatusActive]> st.
Proof.
  intros Hk. destruct (SubmitOffer st now t o) as [st' [e|]] eqn:E; simpl.
  - left. eapply SubmitOffer_error_unchanged; eauto.
  - right. eapply SubmitOffer_success; eauto.
Qed.

Lemma SubmitAnswer_cases st now t a :
  KeyInv st ->
  (SubmitAnswer st now t a).1 = st \/
  exists s, st !! t = Some s /\ Answer_IsValid a = true /\
    CanAcceptAnswer now s = true /\
    (SubmitAnswer st now t a).1 = <[t := set_Answer s a]> st.
Proof.
  intros Hk. destruct (SubmitAnswer st now t a) as [st' [e|]] eqn:E; simpl.
  - left. eapply SubmitAnswer_error_unchanged; eauto.
  - right. eapply SubmitAnswer_success; eauto.
Qed.

Lemma elem_of_collect_expired now l k :
  k ∈ collect_expired now l <-> exists s, (k, s) ∈ l /\ IsExpired now s = true.
Proof.
  induction l as [|[k' s'] l IH]; simpl.
  - split; [intros H; inversion H|]. intros (s & H & _). inversion H.
  - destruct (IsExpired now s') eqn:E.
    + rewrite elem_of_cons, IH. split.
      * intros [->|(s & Hin & Hs)]; [exists s'; split; [left|]; done|].
        exists s. split; [right|]; done.
      * intros (s & Hin & Hs). apply elem_of_cons in Hin as [[= -> ->]|Hin]; eauto.
    + rewrite IH. split.
      * intros (s & Hin & Hs). exists s. split; [right|]; done.
      * intros (s & Hin & Hs). apply elem_of_cons in Hin as [[= -> ->]|Hin];
          [congruence|eauto].
Qed.

Lemma collect_expired_sublist now l : collect_expired now l `sublist_of` l.*1.
Proof.
  induction l as [|[k s] l IH]; simpl; [done|].
  destruct (IsExpired now s); [by apply sublist_skip|by apply sublist_cons].
Qed.

Lemma collect_expired_nil now l :
  (forall kv, kv ∈ l -> IsExpired now kv.2 = false) -> collect_expired now l = [].
Proof.
  induction l as [|[k s] l IH]; simpl; intros H; [done|].
  pose proof (H (k, s) ltac:(apply list_elem_of_here)) as Hk; simpl in Hk.
  rewrite Hk.
  apply IH. intros kv Hkv. apply H. by apply list_elem_of_further.
Qed.

Lemma size_foldr_delete (m : store) (js : list string) :
  NoDup js -> (forall j, j ∈ js -> is_Some (m !! j)) ->
  size (foldr delete m js) + length js = size m.
Proof.
  induction 1 as [|j js Hnot Hnd IH]; simpl; intros Hin; [lia|].
  destruct (Hin j (list_elem_of_here _ _)) as [x Hx].
  rewrite (map_size_delete_Some j).
  - rewrite <- IH by (intros j' Hj'; apply Hin; by apply list_elem_of_further).
    assert (0 < size (foldr delete m js)).
    { apply Nat.neq_0_lt_0. rewrite map_size_non_empty_iff. intros He.
      assert (foldr delete m js !! j = Some x) as Hl
        by (rewrite lookup_foldr_delete_not_elem_of; done).
      rewrite He, lookup_empty in Hl. done. }
    lia.
  - rewrite lookup_foldr_delete_not_elem_of; eauto.
Qed.

Lemma lookup_Cleanup st now k :
  (CleanupExpiredSessions st now).1 !! k =
  match st !! k with
  | Some s => if IsExpired now s then None else Some s
  | None => None
  end.
Proof.
  unfold CleanupExpiredSessions; simpl.
  destruct (decide (k ∈ collect_expired now (map_to_list st))) as [Hin|Hnin].
  - rewrite lookup_foldr_delete by done.
    apply elem_of_collect_expired in Hin as (s & Hin & Hs).
    apply elem_of_map_to_list in Hin. by rewrite Hin, Hs.
  - rewrite lookup_foldr_delete_not_elem_of by done.
    destruct (st !! k) as [s|] eqn:Hk; [|done].
    destruct (IsExpired now s) eqn:Hs; [|done].
    exfalso. apply Hnin, elem_of_collect_expired. exists s.
    split; [by apply elem_of_map_to_list|done].
Qed.

(** What one operation can do to the session stored under [k]: store a new
    pending session (only a creation drawing [k]), keep it, or apply one of
    the two policy writes to it. *)
Lemma run_op_lookup st op k s' :
  KeyInv st -> run_op st op !! k = Some s' ->
  (exists now ttl, op = OpCreate now ttl (Some k) /\
     s' = mkSession k None None now (now + ttl)%Z SessionStatusPending) \/
  exists s, st !! k = Some s /\ creates_token k op = false /\
    (s' = s \/
     (exists now o, op = OpSubmitOffer now k o /\ Offer_IsValid o = true /\
        CanAcceptOffer now s = true /\
        s' = set_Status (set_Offer s o) SessionStatusActive) \/
     (exists now a, op = OpSubmitAnswer now k a /\ Answer_IsValid a = true /\
        CanAcceptAnswer now s = true /\ s' = set_Answer s a)).
Proof.
  intros Hk. destruct op as [now ttl [t|]|now t o|now t|now t a|now t|t|now]; simpl.
  - rewrite lookup_insert. case_decide as Heq.
    + intros [= <-]. subst. left. eauto.
    + intros Hs. right. exists s'. rewrite bool_decide_false by congruence. eauto.
  - intros Hs. right. eauto.
  - destruct (SubmitOffer_cases st now t o Hk) as [->|(s & Hs & Hv & Hc & ->)].
    + intros Hs'. right. eauto.
    + rewrite lookup_insert. case_decide as Heq.
      * intros [= <-]. subst. right. exists s. do 2 (split; [done|]).
        right. left. eauto 10.
      * intros Hs'. right. eauto.
  - intros Hs. right. eauto.
  - destruct (SubmitAnswer_cases st now t a Hk) as [->|(s & Hs & Hv & Hc & ->)].
    + intros Hs'. right. eauto.
    + rewrite lookup_insert. case_decide as Heq.
      * intros [= <-]. subst. right. exists s. do 2 (split; [done|]).
        right. right. eauto 10.
      * intros Hs'. right. eauto.
  - intros Hs. right. eauto.
  - unfold DeleteSession. rewrite lookup_delete_Some. intros [_ Hs]. right. eauto.
  - pose proof (lookup_Cleanup st now k) as HC. simpl in HC. rewrite HC.
    destruct (st !! k) as [s|] eqn:Hs; [|done].
    destruct (IsExpired now s); [done|]. intros [= <-]. right. eauto.
Qed.

Lemma KeyInv_empty : KeyInv ∅.
Proof. apply map_Forall_empty. Qed.

Lemma KeyInv_run_op st op : KeyInv st -> KeyInv (run_op st op).
Proof.
  intros Hk k s' Hs'.
  destruct (run_op_lookup st op k s' Hk Hs')
    as [(now & ttl & _ & ->)|(s & Hs & _ & [->|[(?&?&_&_&_&->)|(?&?&_&_&_&->)]])];
    simpl; try done; exact (Hk k s Hs).
Qed.

Lemma HandshakeInv_empty : HandshakeInv ∅.
Proof. apply map_Forall_empty. Qed.

Lemma HandshakeInv_run_op st op :
  KeyInv st -> HandshakeInv st -> HandshakeInv (run_op st op).
Proof.
  intros Hk Hh k s' Hs'.
  destruct (run_op_lookup st op k s' Hk Hs')
    as [(now & ttl & _ & ->)|(s & Hs & _ & [->|[(now&o&_&Hv&Hc&->)|(now&a&_&Hv&Hc&->)]])];
    simpl.
  - split; congruence.
  - exact (Hh k s Hs).
  - destruct o; [|done]. split; congruence.
  - unfold CanAcceptAnswer in Hc. destruct (Hh k s Hs) as [_ H2].
    destruct (Offer s); [|done]. split; [congruence|exact H2].
Qed.

Lemma run_ops_invariants st ops :
  KeyInv st -> HandshakeInv st ->
  KeyInv (run_ops st ops) /\ HandshakeInv (run_ops st ops).
Proof.
  revert st. induction ops as [|op ops IH]; intros st Hk Hh; simpl; [done|].
  apply IH; [by apply KeyInv_run_op|by apply HandshakeInv_run_op].
Qed.

Lemma reachable_invariants st :
  reachable st -> KeyInv st /\ HandshakeInv st.
Proof.
  intros [ops <-]. apply run_ops_invariants; [apply KeyInv_empty|apply HandshakeInv_empty].
Qed.

(** ** The claims *)

(** A payload the source rejects: [nil], or an empty [Type] or [SDP]. *)
Definition malformed_offer (o : option WebRTCOffer) : Prop :=
  o = None \/ exists x, o = Some x /\
    (offer_Type x = EmptyString \/ offer_SDP x = EmptyString).
Definition malformed_answer (a : option WebRTCAnswer) : Prop :=
  a = None \/ exists x, a = Some x /\
    (answer_Type x = EmptyString \/ answer_SDP x = EmptyString).

(** Two stores used by the witnesses below: one pending session ["tok"]
    created at 0 with a TTL of 100, and the same after an offer at 10. *)
Definition demo_offer : WebRTCOffer := mkOffer "offer" "v=0".
Definition demo_answer : WebRTCAnswer := mkAnswer "answer" "v=0".
Definition demo_ops : list Op := [OpCreate 0 100 (Some "tok"%string)].
Definition demo_store : store := run_ops ∅ demo_ops.
Definition demo_store_offered : store :=
  run_ops ∅ (demo_ops ++ [OpSubmitOffer 10 "tok" (Some demo_offer)]).

(** C3: once [expiresAt] has passed (or the session is gone), [GetOffer],
    [GetAnswer], [SubmitOffer] and [SubmitAnswer] with well-formed payloads
    all fail with [SessionExpired] or [SessionNotFound], whether or not the
    sweep has run, and the two submissions leave the store unchanged. *)
Theorem C3_expired_policy_fails (st : store) (now : Z) (t : string)
    (o : option WebRTCOffer) (a : option WebRTCAnswer)
    (Hexp : forall s, st !! t = Some s -> IsExpired now s = true)
    (Ho : Offer_IsValid o = true) (Ha : Answer_IsValid a = true) :
  (GetOffer st now t = Err ErrSessionExpired \/
   GetOffer st now t = Err ErrSessionNotFound) /\
  (GetAnswer st now t = Err ErrSessionExpired \/
   GetAnswer st now t = Err ErrSessionNotFound) /\
  (SubmitOffer st now t o = (st, Some ErrSessionExpired) \/
   SubmitOffer st now t o = (st, Some ErrSessionNotFound)) /\
  (SubmitAnswer st now t a = (st, Some ErrSessionExpired) \/
   SubmitAnswer st now t a = (st, Some ErrSessionNotFound)).
Proof.
  unfold GetOffer, GetAnswer, SubmitOffer, SubmitAnswer, GetSession.
  rewrite Ho, Ha. simpl.
  destruct (st !! t) as [s|] eqn:Hs.
  - rewrite (Hexp s eq_refl). auto.
  - auto.
Qed.

Lemma C3_expired_policy_fails_witness :
  (forall s, demo_store !! "tok"%string = Some s -> IsExpired 200 s = true) /\
  Offer_IsValid (Some demo_offer) = true /\
  Answer_IsValid (Some demo_answer) = true /\
  ((GetOffer demo_store 200 "tok" = Err ErrSessionExpired \/
    GetOffer demo_store 200 "tok" = Err ErrSessionNotFound) /\
   (GetAnswer demo_store 200 "tok" = Err ErrSessionExpired \/
    GetAnswer demo_store 200 "tok" = Err ErrSessionNotFound) /\
   (SubmitOffer demo_store 200 "tok" (Some demo_offer) =
      (demo_store, Some ErrSessionExpired) \/
    SubmitOffer demo_store 200 "tok" (Some demo_offer) =
      (demo_store, Some ErrSessionNotFound)) /\
   (SubmitAnswer demo_store 200 "tok" (Some demo_answer) =
      (demo_store, Some ErrSessionExpired) \/
    SubmitAnswer demo_store 200 "tok" (Some demo_answer) =
      (demo_store, Some ErrSessionNotFound))).
Proof.
  assert (Hexp : forall s, demo_store !! "tok"%string = Some s -> IsExpired 200 s = true).
  { vm_compute. intros s [= <-]. reflexivity. }
  split; [exact Hexp|]. split; [reflexivity|]. split; [reflexivity|].
  apply (C3_expired_policy_fails demo_store 200 "tok" (Some demo_offer)
           (Some demo_answer) Hexp); reflexivity.
Defined.

(** C4: in every reachable store, a successful [SubmitOffer] followed
    immediately by [GetOffer] on the same token returns exactly the payload
    submitted. *)
Theorem C4_SubmitOffer_GetOffer (st st' : store) (now : Z) (t : string)
    (o : WebRTCOffer)
    (Hr : reachable st) (Hsub : SubmitOffer st now t (Some o) = (st', None)) :
  GetOffer st' now t = Ok o.
Proof.
  destruct (reachable_invariants st Hr) as [Hk _].
  destruct (SubmitOffer_success st now t (Some o) st' Hk Hsub)
    as (s & Hs & _ & Hc & ->).
  unfold GetOffer, GetSession. rewrite lookup_insert_eq.
  unfold CanAcceptOffer in Hc. apply andb_prop in Hc as [_ Hc].
  apply negb_true_iff in Hc. unfold IsExpired in *. simpl. by rewrite Hc.
Qed.

Lemma C4_SubmitOffer_GetOffer_witness :
  reachable demo_store /\
  SubmitOffer demo_store 10 "tok" (Some demo_offer) = (demo_store_offered, None) /\
  GetOffer demo_store_offered 10 "tok" = Ok demo_offer.
Proof.
  assert (Hr : reachable demo_store) by (exists demo_ops; reflexivity).
  assert (Hsub : SubmitOffer demo_store 10 "tok" (Some demo_offer) =
                 (demo_store_offered, None)) by reflexivity.
  split; [exact Hr|]. split; [exact Hsub|].
  exact (C4_SubmitOffer_GetOffer demo_store demo_store_offered 10 "tok"
           demo_offer Hr Hsub).
Defined.

(** C8: [CleanupExpiredSessions] removes exactly the sessions with
    [expiresAt < now], keeps every other one as it was, returns the number
    removed, and a second run at the same instant removes nothing. *)
Theorem C8_Cleanup_exact (st : store) (now : Z) :
  (forall k, (CleanupExpiredSessions st now).1 !! k =
     match st !! k with
     | Some s => if (ExpiresAt s <? now)%Z then None else Some s
     | None => None
     end) /\
  size st = size (CleanupExpiredSessions st now).1 +
            (CleanupExpiredSessions st now).2 /\
  CleanupExpiredSessions (CleanupExpiredSessions st now).1 now =
    ((CleanupExpiredSessions st now).1, 0).
Proof.
  split; [exact (lookup_Cleanup st now)|]. split.
  - unfold CleanupExpiredSessions; simpl. symmetry. apply size_foldr_delete.
    + eapply sublist_NoDup; [apply (NoDup_fst_map_to_list st)|].
      apply collect_expired_sublist.
    + intros j Hj. apply elem_of_collect_expired in Hj as (s & Hin & _).
      apply elem_of_map_to_list in Hin. by exists s.
  - set (st' := (CleanupExpiredSessions st now).1).
    assert (collect_expired now (map_to_list st') = []) as Hnil.
    { apply collect_expired_nil. intros [k s] Hin.
      apply elem_of_map_to_list in Hin. unfold st' in Hin.
      rewrite lookup_Cleanup in Hin. simpl.
      destruct (st !! k) as [s0|]; [|done].
      destruct (IsExpired now s0) eqn:E; [done|]. congruence. }
    unfold CleanupExpiredSessions at 1. rewrite Hnil. reflexivity.
Qed.

(** C9: the payload is checked before the token: a malformed offer gives
    [InvalidOffer] and a malformed answer [InvalidAnswer] for every store and
    every token, with the store unchanged. *)
Theorem C9_validation_first (st : store) (now : Z) (t : string)
    (o : option WebRTCOffer) (a : option WebRTCAnswer) :
  (malformed_offer o -> SubmitOffer st now t o = (st, Some ErrInvalidOffer)) /\
  (malformed_answer a -> SubmitAnswer st now t a = (st, Some ErrInvalidAnswer)).
Proof.
  split.
  - intros Hm. unfold SubmitOffer.
    assert (Offer_IsValid o = false) as ->; [|reflexivity].
    destruct Hm as [->|(x & -> & [Hx|Hx])]; [done| |];
      simpl; rewrite Hx; [done|]. apply andb_false_r.
  - intros Hm. unfold SubmitAnswer.
    assert (Answer_IsValid a = false) as ->; [|reflexivity].
    destruct Hm as [->|(x & -> & [Hx|Hx])]; [done| |];
      simpl; rewrite Hx; [done|]. apply andb_false_r.
Qed.

Lemma C9_validation_first_witness :
  SubmitOffer ∅ 0 "missing" None = (∅, Some ErrInvalidOffer) /\
  SubmitAnswer demo_store 200 "tok" (Some (mkAnswer "answer" EmptyString)) =
    (demo_store, Some ErrInvalidAnswer).
Proof.
  split.
  - apply (C9_validation_first ∅ 0 "missing" None None). left. reflexivity.
  - apply (C9_validation_first demo_store 200 "tok" None
             (Some (mkAnswer "answer" EmptyString))).
    right. exists (mkAnswer "answer" EmptyString). split; [reflexivity|].
    right. reflexivity.
Defined.

(** A property of the session under [t] that the two policy writes keep
    holds along any run that does not draw [t] at creation. *)
Lemma run_ops_preserve (P : Session -> Prop) (t : string) (st : store)
    (ops : list Op) :
  KeyInv st -> (forall s, st !! t = Some s -> P s) ->
  Forall (fun op => creates_token t op = false) ops ->
  (forall s now o, P s -> Offer_IsValid o = true -> CanAcceptOffer now s = true ->
     P (set_Status (set_Offer s o) SessionStatusActive)) ->
  (forall s now a, P s -> Answer_IsValid a = true -> CanAcceptAnswer now s = true ->
     P (set_Answer s a)) ->
  forall s, run_ops st ops !! t = Some s -> P s.
Proof.
  intros Hk HP Hops Hoff Hans. revert st Hk HP.
  induction Hops as [|op ops Hop Hops IH]; intros st Hk HP; simpl; [done|].
  apply IH; [by apply KeyInv_run_op|].
  intros s' Hs'.
  destruct (run_op_lookup st op t s' Hk Hs')
    as [(now & ttl & -> & _)|(s & Hs & _ & [->|[(now&o&_&Hv&Hc&->)|(now&a&_&Hv&Hc&->)]])].
  - simpl in Hop. rewrite bool_decide_true in Hop; done.
  - by apply HP.
  - eapply Hoff; eauto.
  - eapply Hans; eauto.
Qed.

(** C5: in every reachable store a session with an answer has an offer, and
    [SubmitAnswer] with a well-formed answer on a live session that has no
    offer and no answer fails with [SessionNotReady], store unchanged. *)
Theorem C5_answer_only_after_offer (st : store) (Hr : reachable st) :
  (forall k s, st !! k = Some s -> Answer s <> None -> Offer s <> None) /\
  (forall now t s a, st !! t = Some s -> IsExpired now s = false ->
     Offer s = None -> Answer s = None -> Answer_IsValid a = true ->
     SubmitAnswer st now t a = (st, Some ErrSessionNotReady)).
Proof.
  destruct (reachable_invariants st Hr) as [_ Hh]. split.
  - intros k s Hs. exact (proj1 (Hh k s Hs)).
  - intros now t s a Hs He Ho Ha Hv.
    unfold SubmitAnswer, GetSession. rewrite Hv, Hs, He. simpl.
    unfold CanAcceptAnswer. rewrite Ho, Ha. reflexivity.
Qed.

Lemma C5_answer_only_after_offer_witness :
  SubmitAnswer demo_store 10 "tok" (Some demo_answer) =
    (demo_store, Some ErrSessionNotReady).
Proof.
  assert (Hr : reachable demo_store) by (exists demo_ops; reflexivity).
  apply (proj2 (C5_answer_only_after_offer demo_store Hr) 10%Z "tok"
           (mkSession "tok" None None 0 100 SessionStatusPending));
    reflexivity.
Defined.

(** C6: after a successful [SubmitOffer], along any later run that does not
    draw the same token at creation, the stored offer is still the first
    one, and a [SubmitOffer] with a well-formed payload on the live session
    fails with the "cannot accept offer" fault, store unchanged. *)
Theorem C6_offer_once (st st1 : store) (now : Z) (t : string) (o1 : WebRTCOffer)
    (ops : list Op) (now' : Z) (o2 : option WebRTCOffer) (s : Session)
    (Hr : reachable st) (Hsub : SubmitOffer st now t (Some o1) = (st1, None))
    (Hops : Forall (fun op => creates_token t op = false) ops)
    (Hs : run_ops st1 ops !! t = Some s) (Hlive : IsExpired now' s = false)
    (Hv : Offer_IsValid o2 = true) :
  Offer s = Some o1 /\
  SubmitOffer (run_ops st1 ops) now' t o2 =
    (run_ops st1 ops, Some ErrCannotAcceptOffer).
Proof.
  destruct (reachable_invariants st Hr) as [Hk _].
  assert (Hk1 : KeyInv st1).
  { replace st1 with (run_op st (OpSubmitOffer now t (Some o1)))
      by (simpl; by rewrite Hsub). by apply KeyInv_run_op. }
  destruct (SubmitOffer_success st now t (Some o1) st1 Hk Hsub)
    as (s0 & Hs0 & _ & _ & ->).
  assert (HP : Offer s = Some o1 /\ Status s = SessionStatusActive).
  { clear Hlive. revert s Hs. apply (run_ops_preserve
      (fun s => Offer s = Some o1 /\ Status s = SessionStatusActive) t); auto.
    - intros s. rewrite lookup_insert_eq. intros [= <-]. done.
    - intros s n o [_ Hst] _ Hc. unfold CanAcceptOffer in Hc.
      rewrite Hst in Hc. done. }
  destruct HP as [Ho Hst]. split; [done|].
  unfold SubmitOffer, GetSession. rewrite Hv, Hs, Hlive. simpl.
  unfold CanAcceptOffer. rewrite Hst. reflexivity.
Qed.

Definition demo_answered_session : Session :=
  mkSession "tok" (Some demo_offer) (Some demo_answer) 0 100 SessionStatusActive.

Lemma C6_offer_once_witness :
  SubmitOffer (run_ops demo_store_offered [OpSubmitAnswer 20 "tok" (Some demo_answer)])
    30 "tok" (Some (mkOffer "offer" "v=1")) =
  (run_ops demo_store_offered [OpSubmitAnswer 20 "tok" (Some demo_answer)],
   Some ErrCannotAcceptOffer).
Proof.
  assert (Hr : reachable demo_store) by (exists demo_ops; reflexivity).
  apply (C6_offer_once demo_store demo_store_offered 10 "tok" demo_offer
           [OpSubmitAnswer 20 "tok" (Some demo_answer)] 30
           (Some (mkOffer "offer" "v=1")) demo_answered_session Hr);
    [reflexivity|repeat constructor|vm_compute; reflexivity|reflexivity|reflexivity].
Defined.

(** C7: after a successful [SubmitAnswer], along any later run that does
    not draw the same token at creation, the stored answer is still the
    first one, and a [SubmitAnswer] with a well-formed payload on the live
    session fails with [AnswerAlreadyExists], store unchanged. *)
Theorem C7_answer_once (st st1 : store) (now : Z) (t : string)
    (a1 : WebRTCAnswer) (ops : list Op) (now' : Z) (a2 : option WebRTCAnswer)
    (s : Session)
    (Hr : reachable st) (Hsub : SubmitAnswer st now t (Some a1) = (st1, None))
    (Hops : Forall (fun op => creates_token t op = false) ops)
    (Hs : run_ops st1 ops !! t = Some s) (Hlive : IsExpired now' s = false)
    (Hv : Answer_IsValid a2 = true) :
  Answer s = Some a1 /\
  SubmitAnswer (run_ops st1 ops) now' t a2 =
    (run_ops st1 ops, Some ErrAnswerAlreadyExists).
Proof.
  destruct (reachable_invariants st Hr) as [Hk _].
  assert (Hk1 : KeyInv st1).
  { replace st1 with (run_op st (OpSubmitAnswer now t (Some a1)))
      by (simpl; by rewrite Hsub). by apply KeyInv_run_op. }
  destruct (SubmitAnswer_success st now t (Some a1) st1 Hk Hsub)
    as (s0 & Hs0 & _ & _ & ->).
  assert (Ha : Answer s = Some a1).
  { clear Hlive. revert s Hs. apply (run_ops_preserve (fun s => Answer s = Some a1) t); auto.
    - intros s. rewrite lookup_insert_eq. intros [= <-]. done.
    - intros s n a Has _ Hc. unfold CanAcceptAnswer in Hc.
      rewrite Has in Hc. destruct (Offer s); done. }
  split; [done|].
  unfold SubmitAnswer, GetSession. rewrite Hv, Hs, Hlive. simpl.
  unfold CanAcceptAnswer. rewrite Ha. destruct (Offer s); reflexivity.
Qed.

Definition demo_store_answered : store :=
  run_ops demo_store_offered [OpSubmitAnswer 20 "tok" (Some demo_answer)].

Lemma C7_answer_once_witness :
  SubmitAnswer (run_ops demo_store_answered [OpGetAnswer 25 "tok"; OpCleanup 25])
    30 "tok" (Some (mkAnswer "answer" "v=1")) =
  (run_ops demo_store_answered [OpGetAnswer 25 "tok"; OpCleanup 25],
   Some ErrAnswerAlreadyExists).
Proof.
  assert (Hr : reachable demo_store_offered).
  { exists (demo_ops ++ [OpSubmitOffer 10 "tok" (Some demo_offer)]). reflexivity. }
  apply (C7_answer_once demo_store_offered demo_store_answered 20 "tok" demo_answer
           [OpGetAnswer 25 "tok"; OpCleanup 25] 30
           (Some (mkAnswer "answer" "v=1")) demo_answered_session Hr);
    [vm_compute; reflexivity|repeat constructor|vm_compute; reflexivity
    |reflexivity|reflexivity].
Defined.

(** C10: a successful [SubmitAnswer] in a reachable store changes only the
    answer of the session under the token: its token, offer, creation and
    expiry times and status are as before, the status is [Active] (never
    promoted to [Completed]), and every other entry is untouched. *)
Theorem C10_SubmitAnswer_frame (st st' : store) (now : Z) (t : string)
    (a : option WebRTCAnswer)
    (Hr : reachable st) (Hsub : SubmitAnswer st now t a = (st', None)) :
  exists s s', st !! t = Some s /\ st' !! t = Some s' /\
    Answer s' = a /\ Token s' = Token s /\ Offer s' = Offer s /\
    CreatedAt s' = CreatedAt s /\ ExpiresAt s' = ExpiresAt s /\
    Status s' = Status s /\ Status s' = SessionStatusActive /\
    (forall k, k <> t -> st' !! k = st !! k).
Proof.
  destruct (reachable_invariants st Hr) as [Hk Hh].
  destruct (SubmitAnswer_success st now t a st' Hk Hsub)
    as (s & Hs & _ & Hc & ->).
  exists s, (set_Answer s a). rewrite lookup_insert_eq.
  do 8 (split; [done|]). split.
  - simpl. destruct (Hh t s Hs) as [_ H2]. apply H2.
    unfold CanAcceptAnswer in Hc. destruct (Offer s); done.
  - intros k Hkt. by rewrite lookup_insert_ne by congruence.
Qed.

Lemma C10_SubmitAnswer_frame_witness :
  exists s s', demo_store_offered !! "tok"%string = Some s /\
    demo_store_answered !! "tok"%string = Some s' /\
    Answer s' = Some demo_answer /\ Token s' = Token s /\ Offer s' = Offer s /\
    CreatedAt s' = CreatedAt s /\ ExpiresAt s' = ExpiresAt s /\
    Status s' = Status s /\ Status s' = SessionStatusActive /\
    (forall k, k <> "tok"%string -> demo_store_answered !! k = demo_store_offered !! k).
Proof.
  assert (Hr : reachable demo_store_offered).
  { exists (demo_ops ++ [OpSubmitOffer 10 "tok" (Some demo_offer)]). reflexivity. }
  apply (C10_SubmitAnswer_frame demo_store_offered demo_store_answered 20 "tok"
           (Some demo_answer) Hr).
  vm_compute. reflexivity.
Defined.

(** The session ["tok"] of [demo_store] and of [demo_store_offered]. *)
Definition demo_session : Session :=
  mkSession "tok" None None 0 100 SessionStatusPending.
Definition demo_offered_session : Session :=
  mkSession "tok" (Some demo_offer) None 0 100 SessionStatusActive.

(** C1, counterexample: the live session ["tok"] (offer submitted, expires
    at 100) is silently replaced by a fresh pending session when the token
    drawn at time 20 is ["tok"] again; no collision is detected. *)
Lemma C1_collision_not_detected :
  demo_store_offered !! "tok"%string = Some demo_offered_session /\
  IsExpired 20 demo_offered_session = false /\
  CreateSession demo_store_offered 20 100 (Some "tok"%string) =
    (<[ "tok"%string := mkSession "tok" None None 20 120 SessionStatusPending ]>
       demo_store_offered,
     Some (mkSession "tok" None None 20 120 SessionStatusPending)) /\
  (CreateSession demo_store_offered 20 100 (Some "tok"%string)).1 !! "tok"%string =
    Some (mkSession "tok" None None 20 120 SessionStatusPending).
Proof. vm_compute. repeat split. Qed.

(** C1, as the code does it: [CreateSession] stores the new pending session
    under the drawn token unconditionally and changes no other entry; the
    store, keyed by token with every session under its own token, holds no
    other session with the returned token. *)
Theorem C1_CreateSession_inserts (st st' : store) (now ttl : Z) (t : string)
    (s : Session)
    (Hr : reachable st) (Hc : CreateSession st now ttl (Some t) = (st', Some s)) :
  s = mkSession t None None now (now + ttl)%Z SessionStatusPending /\
  st' = <[t := s]> st /\
  KeyInv st' /\
  (forall k s', k <> t -> st' !! k = Some s' -> Token s' <> Token s).
Proof.
  destruct (reachable_invariants st Hr) as [Hk _].
  simpl in Hc. injection Hc as <- <-.
  assert (Hk' : KeyInv (run_op st (OpCreate now ttl (Some t))))
    by (by apply KeyInv_run_op).
  simpl in Hk'. do 3 (split; [done|]).
  intros k s' Hkt Hs'. rewrite (Hk' k s' Hs'). simpl. done.
Qed.

Lemma C1_CreateSession_inserts_witness :
  exists st' s, CreateSession demo_store_offered 20 100 (Some "new"%string) =
    (st', Some s) /\
  s = mkSession "new" None None 20 120 SessionStatusPending /\
  st' = <[ "new"%string := s ]> demo_store_offered.
Proof.
  assert (Hr : reachable demo_store_offered).
  { exists (demo_ops ++ [OpSubmitOffer 10 "tok" (Some demo_offer)]). reflexivity. }
  exists (<[ "new"%string := mkSession "new" None None 20 120 SessionStatusPending ]>
            demo_store_offered),
         (mkSession "new" None None 20 120 SessionStatusPending).
  assert (Hc : CreateSession demo_store_offered 20 100 (Some "new"%string) =
    (<[ "new"%string := mkSession "new" None None 20 120 SessionStatusPending ]>
       demo_store_offered,
     Some (mkSession "new" None None 20 120 SessionStatusPending)))
    by reflexivity.
  split; [exact Hc|].
  destruct (C1_CreateSession_inserts _ _ 20 100 "new" _ Hr Hc) as (H1 & H2 & _).
  split; [exact H1|exact H2].
Defined.

(** C2, counterexample: at time 200 the session ["tok"] of [demo_store]
    (expires at 100, not swept) is still returned by [GetSession], and
    [UpdateSession] on it succeeds: neither answers [NotFound]. *)
Lemma C2_expired_entry_served :
  IsExpired 200 demo_session = true /\
  GetSession demo_store "tok" = Ok demo_session /\
  UpdateSession demo_store demo_session = Ok demo_store.
Proof. vm_compute. repeat split. Qed.

(** C2, as the code does it: the store does not look at [expiresAt];
    [GetSession] returns an expired, unswept session and [UpdateSession]
    replaces it.  The expiry is enforced by the policy layer, where the
    four operations fail with [SessionExpired] and leave the store as it
    was. *)
Theorem C2_store_ignores_expiry (st : store) (now : Z) (t : string) (s : Session)
    (Hs : st !! t = Some s) (He : IsExpired now s = true) :
  GetSession st t = Ok s /\
  (forall s', Token s' = t -> UpdateSession st s' = Ok (<[t := s']> st)) /\
  GetOffer st now t = Err ErrSessionExpired /\
  GetAnswer st now t = Err ErrSessionExpired /\
  (forall o, Offer_IsValid o = true ->
     SubmitOffer st now t o = (st, Some ErrSessionExpired)) /\
  (forall a, Answer_IsValid a = true ->
     SubmitAnswer st now t a = (st, Some ErrSessionExpired)).
Proof.
  assert (HG : GetSession st t = Ok s) by (unfold GetSession; by rewrite Hs).
  split; [exact HG|]. split.
  - intros s' <-. unfold UpdateSession. by rewrite Hs.
  - unfold GetOffer, GetAnswer, SubmitOffer, SubmitAnswer.
    rewrite HG, He. do 2 (split; [done|]). split; intros x Hx; by rewrite Hx.
Qed.

Lemma C2_store_ignores_expiry_witness :
  GetSession demo_store "tok" = Ok demo_session /\
  GetOffer demo_store 200 "tok" = Err ErrSessionExpired.
Proof.
  destruct (C2_store_ignores_expiry demo_store 200 "tok" demo_session)
    as (H1 & _ & H3 & _); [vm_compute; reflexivity|reflexivity|].
  split; [exact H1|exact H3].
Defined.

(** ** Further properties of the store and the policy *)

(** The status and the offer agree in every reachable state. *)
Definition StatusInv (st : store) : Prop :=
  map_Forall (fun _ s =>
    (Status s = SessionStatusPending /\ Offer s = None /\ Answer s = None) \/
    (Status s = SessionStatusActive /\ Offer s <> None)) st.

Lemma StatusInv_run_op st op :
  KeyInv st -> StatusInv st -> StatusInv (run_op st op).
Proof.
  intros Hk Hi k s' Hs'.
  destruct (run_op_lookup st op k s' Hk Hs')
    as [(now & ttl & _ & ->)|(s & Hs & _ & [->|[(now&o&_&Hv&Hc&->)|(now&a&_&Hv&Hc&->)]])];
    simpl.
  - left. done.
  - exact (Hi k s Hs).
  - right. split; [done|]. destruct o; done.
  - right. unfold CanAcceptAnswer in Hc.
    destruct (Hi k s Hs) as [(_ & Ho & _)|(Hst & Ho)]; [by rewrite Ho in Hc|done].
Qed.

(** The number of sessions the sweep removes at [now]. *)
Lemma size_Cleanup (st : store) (now : Z) :
  size st = size (CleanupExpiredSessions st now).1 +
            (CleanupExpiredSessions st now).2.
Proof.
  unfold CleanupExpiredSessions; simpl. symmetry. apply size_foldr_delete.
  - eapply sublist_NoDup; [apply (NoDup_fst_map_to_list st)|].
    apply collect_expired_sublist.
  - intros j Hj. apply elem_of_collect_expired in Hj as (s & Hin & _).
    apply elem_of_map_to_list in Hin. by exists s.
Qed.

(** X1: in every reachable state each stored session is either [Pending]
    with neither offer nor answer, or [Active] with an offer; the statuses
    [Completed] and [Expired] are never stored. *)
Theorem X1_status_matches_offer (st : store) (Hr : reachable st) :
  forall k s, st !! k = Some s ->
    ((Status s = SessionStatusPending /\ Offer s = None /\ Answer s = None) \/
     (Status s = SessionStatusActive /\ Offer s <> None)) /\
    Status s <> SessionStatusCompleted /\ Status s <> SessionStatusExpired.
Proof.
  destruct Hr as [ops <-].
  assert (H : KeyInv (run_ops ∅ ops) /\ StatusInv (run_ops ∅ ops)).
  { generalize (∅ : store) (KeyInv_empty) (map_Forall_empty (M := gmap string)
      (fun (_ : string) (s : Session) =>
        (Status s = SessionStatusPending /\ Offer s = None /\ Answer s = None) \/
        (Status s = SessionStatusActive /\ Offer s <> None))).
    induction ops as [|op ops IH]; intros st Hk Hi; simpl; [done|].
    apply IH; [by apply KeyInv_run_op|by apply StatusInv_run_op]. }
  intros k s Hs. destruct H as [_ Hi].
  destruct (Hi k s Hs) as [(Hst & Ho)|(Hst & Ho)];
    (split; [eauto|rewrite Hst; done]).
Qed.

Lemma X1_status_matches_offer_witness :
  ((Status demo_answered_session = SessionStatusPending /\
    Offer demo_answered_session = None /\ Answer demo_answered_session = None) \/
   (Status demo_answered_session = SessionStatusActive /\
    Offer demo_answered_session <> None)) /\
  Status demo_answered_session <> SessionStatusCompleted /\
  Status demo_answered_session <> SessionStatusExpired.
Proof.
  apply (X1_status_matches_offer demo_store_answered) with (k := "tok"%string).
  - exists (demo_ops ++ [OpSubmitOffer 10 "tok" (Some demo_offer);
                        OpSubmitAnswer 20 "tok" (Some demo_answer)]).
    reflexivity.
  - vm_compute. reflexivity.
Defined.

(** X2: a token absent from a reachable store stays absent along any run
    that does not draw it at creation: no policy operation, delete or sweep
    creates an entry.  In particular a token never drawn is unknown to
    [GetSession]. *)
Theorem X2_no_resurrection (st : store) (t : string) (ops : list Op)
    (Hr : reachable st) (Hnone : st !! t = None)
    (Hops : Forall (fun op => creates_token t op = false) ops) :
  run_ops st ops !! t = None /\
  GetSession (run_ops st ops) t = Err RepoErrSessionNotFound.
Proof.
  destruct (reachable_invariants st Hr) as [Hk _].
  assert (run_ops st ops !! t = None) as H.
  { revert st Hk Hnone Hr. induction Hops as [|op ops Hop Hops IH];
      intros st Hk Hnone Hr; simpl; [done|].
    apply IH.
    - by apply KeyInv_run_op.
    - destruct (run_op st op !! t) as [s'|] eqn:Hs'; [|done].
      destruct (run_op_lookup st op t s' Hk Hs')
        as [(now & ttl & -> & _)|(s & Hs & _)].
      + simpl in Hop. rewrite bool_decide_true in Hop; done.
      + congruence.
    - destruct Hr as [ops0 <-]. exists (ops0 ++ [op]).
      unfold run_ops. by rewrite fold_left_app. }
  split; [done|]. unfold GetSession. by rewrite H.
Qed.

Lemma X2_no_resurrection_witness :
  GetSession (run_ops ∅ [OpCreate 0 100 (Some "a"%string);
                         OpSubmitOffer 5 "b" (Some demo_offer); OpCleanup 200]) "b"
    = Err RepoErrSessionNotFound.
Proof.
  apply (X2_no_resurrection ∅ "b").
  - exists []. reflexivity.
  - reflexivity.
  - repeat constructor.
Defined.

(** X3: along any run that does not draw the token again, the stored
    session keeps its token, [createdAt] and [expiresAt]: the expiry is
    fixed at creation and never extended. *)
Theorem X3_times_fixed (st : store) (t : string) (s0 s : Session) (ops : list Op)
    (Hr : reachable st) (Hs0 : st !! t = Some s0)
    (Hops : Forall (fun op => creates_token t op = false) ops)
    (Hs : run_ops st ops !! t = Some s) :
  Token s = Token s0 /\ CreatedAt s = CreatedAt s0 /\ ExpiresAt s = ExpiresAt s0.
Proof.
  destruct (reachable_invariants st Hr) as [Hk _].
  revert s Hs. apply (run_ops_preserve
    (fun s => Token s = Token s0 /\ CreatedAt s = CreatedAt s0 /\
              ExpiresAt s = ExpiresAt s0) t st ops Hk); auto.
  intros s Hs. rewrite Hs0 in Hs. injection Hs as <-. done.
Qed.

Lemma X3_times_fixed_witness :
  Token demo_answered_session = Token demo_session /\
  CreatedAt demo_answered_session = CreatedAt demo_session /\
  ExpiresAt demo_answered_session = ExpiresAt demo_session.
Proof.
  apply (X3_times_fixed demo_store "tok" demo_session demo_answered_session
           [OpSubmitOffer 10 "tok" (Some demo_offer);
            OpSubmitAnswer 20 "tok" (Some demo_answer)]).
  - exists demo_ops. reflexivity.
  - reflexivity.
  - repeat constructor.
  - vm_compute. reflexivity.
Defined.

Lemma GetSession_lookup (st : store) t s : st !! t = Some s -> GetSession st t = Ok s.
Proof. unfold GetSession. by intros ->. Qed.

Lemma UpdateSession_present (st : store) s x :
  st !! Token s = Some x -> UpdateSession st s = Ok (<[Token s := s]> st).
Proof. unfold UpdateSession. by intros ->. Qed.

(** X4: the whole handshake on a freshly created session succeeds while
    every call happens no later than [now + ttl]: the offer is accepted and
    read back, then the answer is accepted and read back, and the offer is
    still readable after the answer. *)
Theorem X4_handshake_succeeds (st st1 : store) (now ttl t1 t2 t3 t4 : Z)
    (t : string) (s : Session) (o : WebRTCOffer) (a : WebRTCAnswer)
    (Hc : CreateSession st now ttl (Some t) = (st1, Some s))
    (H1 : (t1 <= now + ttl)%Z) (H2 : (t2 <= now + ttl)%Z)
    (H3 : (t3 <= now + ttl)%Z) (H4 : (t4 <= now + ttl)%Z)
    (Ho : Offer_IsValid (Some o) = true) (Ha : Answer_IsValid (Some a) = true) :
  exists st2 st3,
    SubmitOffer st1 t1 t (Some o) = (st2, None) /\
    GetOffer st2 t2 t = Ok o /\
    SubmitAnswer st2 t3 t (Some a) = (st3, None) /\
    GetAnswer st3 t4 t = Ok a /\
    GetOffer st3 t4 t = Ok o.
Proof.
  simpl in Hc. injection Hc as <- <-.
  set (s0 := mkSession t None None now (now + ttl)%Z SessionStatusPending).
  set (s1 := set_Status (set_Offer s0 (Some o)) SessionStatusActive).
  set (s2 := set_Answer s1 (Some a)).
  assert (Hexp : forall n, (n <= now + ttl)%Z -> forall x, ExpiresAt x = (now + ttl)%Z ->
            IsExpired n x = false).
  { intros n Hn x Hx. apply IsExpired_false_iff. lia. }
  set (st1 := <[t := s0]> st). set (st2 := <[t := s1]> st1).
  set (st3 := <[t := s2]> st2).
  assert (L1 : st1 !! t = Some s0) by apply lookup_insert_eq.
  assert (L2 : st2 !! t = Some s1) by apply lookup_insert_eq.
  assert (L3 : st3 !! t = Some s2) by apply lookup_insert_eq.
  exists st2, st3. split; [|split; [|split; [|split]]].
  - unfold SubmitOffer. rewrite Ho, (GetSession_lookup st1 t s0 L1).
    rewrite (Hexp t1 H1 s0 eq_refl). unfold CanAcceptOffer.
    rewrite (Hexp t1 H1 s0 eq_refl).
    cbv zeta. fold s1. rewrite (UpdateSession_present st1 s1 s0 L1). reflexivity.
  - unfold GetOffer. rewrite (GetSession_lookup st2 t s1 L2).
    rewrite (Hexp t2 H2 s1 eq_refl). reflexivity.
  - unfold SubmitAnswer. rewrite Ha, (GetSession_lookup st2 t s1 L2).
    rewrite (Hexp t3 H3 s1 eq_refl). unfold CanAcceptAnswer.
    rewrite (Hexp t3 H3 s1 eq_refl).
    cbv zeta. fold s2. rewrite (UpdateSession_present st2 s2 s1 L2). reflexivity.
  - unfold GetAnswer. rewrite (GetSession_lookup st3 t s2 L3).
    rewrite (Hexp t4 H4 s2 eq_refl). reflexivity.
  - unfold GetOffer. rewrite (GetSession_lookup st3 t s2 L3).
    rewrite (Hexp t4 H4 s2 eq_refl). reflexivity.
Qed.

Lemma X4_handshake_succeeds_witness :
  exists st2 st3,
    SubmitOffer (CreateSession ∅ 0 100 (Some "tok"%string)).1 10 "tok"
      (Some demo_offer) = (st2, None) /\
    GetOffer st2 20 "tok" = Ok demo_offer /\
    SubmitAnswer st2 30 "tok" (Some demo_answer) = (st3, None) /\
    GetAnswer st3 100 "tok" = Ok demo_answer /\
    GetOffer st3 100 "tok" = Ok demo_offer.
Proof.
  apply (X4_handshake_succeeds ∅ (CreateSession ∅ 0 100 (Some "tok"%string)).1
           0 100 10 20 30 100 "tok"
           (mkSession "tok" None None 0 100 SessionStatusPending));
    try reflexivity; lia.
Defined.

(** X5: [UpdateSession] never creates an entry: it fails with [NotFound]
    when the session's token is not stored, and on success the set of
    tokens is unchanged, [GetSession] returns the written session, and no
    other entry changes. *)
Theorem X5_UpdateSession_no_insert (st : store) (s : Session) :
  (st !! Token s = None -> UpdateSession st s = Err RepoErrSessionNotFound) /\
  (forall st', UpdateSession st s = Ok st' ->
     dom st' = dom st /\ GetSession st' (Token s) = Ok s /\
     (forall k, k <> Token s -> st' !! k = st !! k)).
Proof.
  unfold UpdateSession. split.
  - intros H. by rewrite H.
  - intros st'. destruct (st !! Token s) as [s0|] eqn:Hs; [|done].
    intros [= <-]. split; [|split].
    + rewrite dom_insert_L. apply elem_of_dom_2 in Hs. set_solver.
    + unfold GetSession. by rewrite lookup_insert_eq.
    + intros k Hk. by rewrite lookup_insert_ne by congruence.
Qed.

Lemma X5_UpdateSession_no_insert_witness :
  UpdateSession demo_store (mkSession "other" None None 0 100 SessionStatusPending)
    = Err RepoErrSessionNotFound /\
  dom (<[ "tok"%string := demo_offered_session ]> demo_store) = dom demo_store.
Proof.
  split.
  - apply (X5_UpdateSession_no_insert demo_store
             (mkSession "other" None None 0 100 SessionStatusPending)).
    vm_compute. reflexivity.
  - apply (X5_UpdateSession_no_insert demo_store demo_offered_session).
    reflexivity.
Defined.

(** X6: [DeleteSession] is idempotent and a no-op on an absent token; after
    it, [GetOffer], [GetAnswer] and the two submissions with well-formed
    payloads on that token fail with [SessionNotFound]. *)
Theorem X6_DeleteSession (st : store) (t : string) (now : Z)
    (o : option WebRTCOffer) (a : option WebRTCAnswer)
    (Ho : Offer_IsValid o = true) (Ha : Answer_IsValid a = true) :
  DeleteSession (DeleteSession st t) t = DeleteSession st t /\
  (st !! t = None -> DeleteSession st t = st) /\
  GetOffer (DeleteSession st t) now t = Err ErrSessionNotFound /\
  GetAnswer (DeleteSession st t) now t = Err ErrSessionNotFound /\
  SubmitOffer (DeleteSession st t) now t o =
    (DeleteSession st t, Some ErrSessionNotFound) /\
  SubmitAnswer (DeleteSession st t) now t a =
    (DeleteSession st t, Some ErrSessionNotFound).
Proof.
  unfold DeleteSession. split; [|split].
  - apply delete_delete_eq.
  - apply delete_id.
  - assert (HG : GetSession (delete t st) t = Err RepoErrSessionNotFound)
      by (unfold GetSession; by rewrite lookup_delete_eq).
    unfold GetOffer, GetAnswer, SubmitOffer, SubmitAnswer.
    rewrite HG, Ho, Ha. done.
Qed.

Lemma X6_DeleteSession_witness :
  GetOffer (DeleteSession demo_store_offered "tok") 20 "tok" = Err ErrSessionNotFound.
Proof.
  apply (X6_DeleteSession demo_store_offered "tok" 20 (Some demo_offer)
           (Some demo_answer)); reflexivity.
Defined.

(** X7: sweeps compose: a sweep at [n1] followed by one at a later [n2]
    leaves the same store as a single sweep at [n2], and the two counts add
    up to the count of the single sweep. *)
Theorem X7_Cleanup_compose (st : store) (n1 n2 : Z) (Hle : (n1 <= n2)%Z) :
  (CleanupExpiredSessions (CleanupExpiredSessions st n1).1 n2).1 =
    (CleanupExpiredSessions st n2).1 /\
  (CleanupExpiredSessions st n1).2 +
    (CleanupExpiredSessions (CleanupExpiredSessions st n1).1 n2).2 =
    (CleanupExpiredSessions st n2).2.
Proof.
  assert (Heq : (CleanupExpiredSessions (CleanupExpiredSessions st n1).1 n2).1 =
                (CleanupExpiredSessions st n2).1).
  { apply map_eq. intros k. rewrite !lookup_Cleanup.
    destruct (st !! k) as [s|]; [|done].
    unfold IsExpired. destruct (ExpiresAt s <? n1)%Z eqn:E1.
    - assert ((ExpiresAt s <? n2)%Z = true) as -> by (apply Z.ltb_lt in E1; lia).
      done.
    - done. }
  split; [exact Heq|].
  pose proof (size_Cleanup st n1) as S1.
  pose proof (size_Cleanup (CleanupExpiredSessions st n1).1 n2) as S2.
  pose proof (size_Cleanup st n2) as S3.
  rewrite Heq in S2. lia.
Qed.

Lemma X7_Cleanup_compose_witness :
  (CleanupExpiredSessions (CleanupExpiredSessions demo_store 50).1 150).1 =
    (CleanupExpiredSessions demo_store 150).1.
Proof. apply (X7_Cleanup_compose demo_store 50 150). lia. Defined.

(** *** Counting active sessions *)

Lemma filter_length_perm (f : string * Session -> bool) l1 l2 :
  Permutation l1 l2 -> length (List.filter f l1) = length (List.filter f l2).
Proof.
  induction 1 as [|x l1 l2 _ IH|x y l|l1 l2 l3 _ IH1 _ IH2]; simpl.
  - done.
  - destruct (f x); simpl; lia.
  - destruct (f x), (f y); simpl; lia.
  - lia.
Qed.

Definition active_bit (now : Z) (o : option Session) : nat :=
  match o with Some v => if IsActive now v then 1 else 0 | None => 0 end.

Lemma count_insert_fresh (m : store) now k v :
  m !! k = None ->
  GetActiveSessionsCount (<[k := v]> m) now =
  GetActiveSessionsCount m now + active_bit now (Some v).
Proof.
  intros Hk. unfold GetActiveSessionsCount.
  rewrite (filter_length_perm _ _ _ (map_to_list_insert m k v Hk)).
  simpl. destruct (IsActive now v); simpl; lia.
Qed.

Lemma count_delete (m : store) now k :
  GetActiveSessionsCount m now =
  GetActiveSessionsCount (delete k m) now + active_bit now (m !! k).
Proof.
  destruct (m !! k) as [v|] eqn:Hk.
  - rewrite <- (insert_delete_id m k v Hk) at 1.
    apply count_insert_fresh. apply lookup_delete_eq.
  - rewrite delete_id by done. simpl. lia.
Qed.

Lemma count_insert (m : store) now k v :
  GetActiveSessionsCount (<[k := v]> m) now + active_bit now (m !! k) =
  GetActiveSessionsCount m now + active_bit now (Some v).
Proof.
  rewrite <- insert_delete_eq.
  rewrite count_insert_fresh by apply lookup_delete_eq.
  rewrite (count_delete m now k). lia.
Qed.

(** X8: the sweep never changes the number of active sessions counted at
    the same instant (it only removes expired sessions, which are never
    counted), and that number never exceeds the number of stored entries. *)
Theorem X8_Cleanup_keeps_active_count (st : store) (now : Z) :
  GetActiveSessionsCount (CleanupExpiredSessions st now).1 now =
    GetActiveSessionsCount st now /\
  GetActiveSessionsCount st now <= size st.
Proof.
  split.
  - unfold CleanupExpiredSessions; simpl.
    assert (Hjs : forall j, j ∈ collect_expired now (map_to_list st) ->
              exists s, st !! j = Some s /\ IsExpired now s = true).
    { intros j Hj. apply elem_of_collect_expired in Hj as (s & Hin & Hs).
      apply elem_of_map_to_list in Hin. eauto. }
    induction (collect_expired now (map_to_list st)) as [|j js IH]; simpl; [done|].
    rewrite (count_delete (foldr delete st js) now j) in IH.
    + rewrite <- IH by (intros j' Hj'; apply Hjs; by apply list_elem_of_further).
      destruct (Hjs j (list_elem_of_here _ _)) as (s & Hs & He).
      destruct (foldr delete st js !! j) as [v|] eqn:Hv; simpl; [|lia].
      apply lookup_foldr_delete_Some in Hv as [_ Hv]. rewrite Hs in Hv.
      injection Hv as <-. unfold IsActive. rewrite He. simpl.
      destruct (status_eqb _ _); simpl; lia.
  - unfold GetActiveSessionsCount. rewrite <- length_map_to_list.
    induction (map_to_list st) as [|x l IH]; simpl; [lia|].
    destruct (IsActive now x.2); simpl; lia.
Qed.

Lemma X8_Cleanup_keeps_active_count_witness :
  GetActiveSessionsCount (CleanupExpiredSessions demo_store_offered 50).1 50 = 1.
Proof.
  destruct (X8_Cleanup_keeps_active_count demo_store_offered 50) as [H _].
  rewrite H. reflexivity.
Defined.

(** X9: counted at the instant of the request, in a reachable store, a
    successful [SubmitOffer] adds exactly one active session, a successful
    [SubmitAnswer] leaves the count unchanged, and creating a session under
    a token not yet stored leaves it unchanged (a new session is [Pending]). *)
Theorem X9_active_count_steps (st : store) (now ttl : Z) (t : string)
    (Hr : reachable st) :
  (forall o st', SubmitOffer st now t o = (st', None) ->
     GetActiveSessionsCount st' now = S (GetActiveSessionsCount st now)) /\
  (forall a st', SubmitAnswer st now t a = (st', None) ->
     GetActiveSessionsCount st' now = GetActiveSessionsCount st now) /\
  (st !! t = None -> forall st' s,
     CreateSession st now ttl (Some t) = (st', Some s) ->
     GetActiveSessionsCount st' now = GetActiveSessionsCount st now).
Proof.
  destruct (reachable_invariants st Hr) as [Hk _]. split; [|split].
  - intros o st' Hsub.
    destruct (SubmitOffer_success st now t o st' Hk Hsub) as (s & Hs & _ & Hc & ->).
    pose proof (count_insert st now t
      (set_Status (set_Offer s o) SessionStatusActive)) as E.
    rewrite Hs in E. simpl in E. unfold CanAcceptOffer in Hc.
    apply andb_prop in Hc as [Hp He].
    unfold IsActive in E. simpl in E. unfold IsExpired in *. simpl in E.
    destruct (Status s); try discriminate Hp. simpl in E.
    apply negb_true_iff in He. rewrite He in E. simpl in E. lia.
  - intros a st' Hsub.
    destruct (SubmitAnswer_success st now t a st' Hk Hsub) as (s & Hs & _ & _ & ->).
    pose proof (count_insert st now t (set_Answer s a)) as E.
    rewrite Hs in E. simpl in E. unfold IsActive, IsExpired in E. simpl in E. lia.
  - intros Hnone st' s Hc. simpl in Hc. injection Hc as <- _.
    rewrite count_insert_fresh by done. simpl. lia.
Qed.

Lemma X9_active_count_steps_witness :
  GetActiveSessionsCount demo_store_offered 10 =
    S (GetActiveSessionsCount demo_store 10).
Proof.
  apply (proj1 (X9_active_count_steps demo_store 10 100 "tok"
           ltac:(exists demo_ops; reflexivity)) (Some demo_offer)).
  reflexivity.
Defined.

(** X10: in a reachable store an answer is never readable without the
    offer: whenever [GetAnswer] succeeds, [GetOffer] on the same token at
    the same instant succeeds too. *)
Theorem X10_answer_visible_implies_offer (st : store) (now : Z) (t : string)
    (a : WebRTCAnswer) (Hr : reachable st) (Hg : GetAnswer st now t = Ok a) :
  exists o, GetOffer st now t = Ok o.
Proof.
  destruct (reachable_invariants st Hr) as [_ Hh].
  unfold GetAnswer, GetOffer, GetSession in *.
  destruct (st !! t) as [s|] eqn:Hs; [|done].
  destruct (IsExpired now s); [done|].
  destruct (Hh t s Hs) as [H1 _].
  destruct (Answer s); [|done]. destruct (Offer s) as [o|]; [by exists o|].
  exfalso. by apply H1.
Qed.

Lemma X10_answer_visible_implies_offer_witness :
  exists o, GetOffer demo_store_answered 30 "tok" = Ok o.
Proof.
  apply (X10_answer_visible_implies_offer demo_store_answered 30 "tok" demo_answer).
  - exists (demo_ops ++ [OpSubmitOffer 10 "tok" (Some demo_offer);
                        OpSubmitAnswer 20 "tok" (Some demo_answer)]).
    reflexivity.
  - reflexivity.
Defined.

(** ** Token generation and the HTTP layer *)

Local Open Scope Z_scope.

Lemma byte_val_range b : 0 <= byte_val b <= 255.
Proof. unfold byte_val. pose proof (Byte.to_N_bounded b). lia. Qed.

Lemma byte_val_inj b c : byte_val b = byte_val c -> b = c.
Proof.
  unfold byte_val. intros H. apply N2Z.inj in H.
  pose proof (Byte.of_to_N b) as Hb. pose proof (Byte.of_to_N c) as Hc.
  rewrite H in Hb. congruence.
Qed.

Lemma lor_low x y k : 0 <= k -> 0 <= y < 2 ^ k -> Z.lor (x * 2 ^ k) y = x * 2 ^ k + y.
Proof.
  intros Hk Hy.
  assert (E : Z.land (x * 2 ^ k) y = 0).
  { rewrite <- (Z.mod_small y (2 ^ k) Hy), <- Z.land_ones by lia.
    rewrite Z.land_assoc, Z.land_comm, Z.land_assoc, (Z.land_comm (Z.ones k)), Z.land_ones by lia.
    rewrite Z_mod_mult. apply Z.land_0_l. }
  pose proof (Z.add_lor_land (x * 2 ^ k) y). lia.
Qed.

Lemma sextet v k : 0 <= k -> Z.land (Z.shiftr v k) 63 = v / 2 ^ k mod 64.
Proof.
  intros Hk. rewrite Z.shiftr_div_pow2 by lia.
  change 63 with (Z.ones 6). rewrite Z.land_ones by lia. reflexivity.
Qed.

Lemma recon v : 0 <= v < 16777216 ->
  v = (v/262144) mod 64 * 262144 + (v/4096) mod 64 * 4096 + (v/64) mod 64 * 64 + v mod 64.
Proof. intros H.
  assert (E1 : v/64/64 = v/4096) by (rewrite Z.div_div by lia; reflexivity).
  assert (E2 : v/4096/64 = v/262144) by (rewrite Z.div_div by lia; reflexivity).
  pose proof (Z.div_mod v 64 ltac:(lia)).
  pose proof (Z.div_mod (v/64) 64 ltac:(lia)).
  pose proof (Z.div_mod (v/4096) 64 ltac:(lia)).
  assert ((v/262144) mod 64 = v/262144).
  { apply Z.mod_small. split; [apply Z.div_pos; lia|apply Z.div_lt_upper_bound; lia]. }
  rewrite E1 in *. rewrite E2 in *. lia. Qed.

Lemma encodeURL_NoDup : NoDup (String.list_ascii_of_string encodeURL).
Proof. apply (bool_decide_unpack _). vm_compute. reflexivity. Qed.

Lemma encodeURL_length : length (String.list_ascii_of_string encodeURL) = 64%nat.
Proof. reflexivity. Qed.

Lemma enc_char_inj i j : 0 <= i < 64 -> 0 <= j < 64 -> enc_char i = enc_char j -> i = j.
Proof.
  intros Hi Hj H. unfold enc_char in H.
  apply (proj1 (NoDup_nth _ _) (proj1 (NoDup_ListNoDup _) encodeURL_NoDup)) in H; rewrite ?encodeURL_length; lia.
Qed.

Lemma enc_char_in i : 0 <= i < 64 -> enc_char i ∈ String.list_ascii_of_string encodeURL.
Proof.
  intros Hi. unfold enc_char. apply list_elem_of_In, nth_In. rewrite encodeURL_length. lia.
Qed.

Lemma mod64_range v : 0 <= v mod 64 < 64.
Proof. apply Z.mod_pos_bound. lia. Qed.

Lemma land63_range v : 0 <= Z.land v 63 < 64.
Proof. change 63 with (Z.ones 6). rewrite Z.land_ones by lia. apply mod64_range. Qed.

Lemma val3_eq b0 b1 b2 :
  Z.lor (Z.lor (Z.shiftl (byte_val b0) 16) (Z.shiftl (byte_val b1) 8)) (byte_val b2) =
  byte_val b0 * 65536 + byte_val b1 * 256 + byte_val b2.
Proof.
  pose proof (byte_val_range b0). pose proof (byte_val_range b1). pose proof (byte_val_range b2).
  rewrite !Z.shiftl_mul_pow2 by lia.
  rewrite (lor_low (byte_val b0) (byte_val b1 * 2 ^ 8) 16) by (cbn; lia).
  replace (byte_val b0 * 2 ^ 16 + byte_val b1 * 2 ^ 8) with ((byte_val b0 * 256 + byte_val b1) * 2 ^ 8) by (cbn; lia).
  rewrite lor_low by (cbn; lia). cbn. lia.
Qed.

Lemma val2_eq b0 b1 :
  Z.lor (Z.shiftl (byte_val b0) 16) (Z.shiftl (byte_val b1) 8) =
  byte_val b0 * 65536 + byte_val b1 * 256.
Proof.
  pose proof (byte_val_range b0). pose proof (byte_val_range b1).
  rewrite !Z.shiftl_mul_pow2 by lia.
  rewrite (lor_low (byte_val b0) (byte_val b1 * 2 ^ 8) 16) by (cbn; lia). cbn. lia.
Qed.

Lemma sextets_inj v w :
  0 <= v < 16777216 -> 0 <= w < 16777216 ->
  enc_char (Z.land (Z.shiftr v 18) 63) = enc_char (Z.land (Z.shiftr w 18) 63) ->
  enc_char (Z.land (Z.shiftr v 12) 63) = enc_char (Z.land (Z.shiftr w 12) 63) ->
  enc_char (Z.land (Z.shiftr v 6) 63) = enc_char (Z.land (Z.shiftr w 6) 63) ->
  v mod 64 = w mod 64 -> v = w.
Proof.
  intros Hv Hw H1 H2 H3 H4.
  apply enc_char_inj in H1, H2, H3; try apply land63_range.
  rewrite !sextet in H1, H2, H3 by lia.
  change (2 ^ 18) with 262144 in H1. change (2 ^ 12) with 4096 in H2. change (2 ^ 6) with 64 in H3.
  rewrite (recon v Hv), (recon w Hw). congruence.
Qed.

Lemma b64_encode_inj l1 l2 : b64_encode l1 = b64_encode l2 -> l1 = l2.
Proof.
  revert l2. induction l1 as [l1 IH] using (induction_ltof1 _ (@length _)). unfold ltof in IH.
  intros l2 H.
  destruct l1 as [|a0 [|a1 [|a2 r1]]], l2 as [|c0 [|c1 [|c2 r2]]]; simpl in H;
    try discriminate; try reflexivity.
  - (* one byte *)
    injection H as H1 H2. rewrite !Z.shiftl_mul_pow2 in H1, H2 by lia.
    pose proof (byte_val_range a0). pose proof (byte_val_range c0).
    change (2 ^ 16) with 65536 in H1, H2.
    assert (Z0 : forall x, Z.land (Z.shiftr (x * 65536) 6) 63 = 0).
    { intros x. rewrite sextet by lia. change (2 ^ 6) with 64.
      replace (x * 65536) with (x * 1024 * 64) by lia. rewrite Z.div_mul by lia.
      replace (x * 1024) with (x * 16 * 64) by lia. apply Z_mod_mult. }
    assert (byte_val a0 * 65536 = byte_val c0 * 65536).
    { apply sextets_inj; try lia; try assumption.
      - rewrite !Z0. reflexivity.
      - replace (byte_val a0 * 65536) with (byte_val a0 * 1024 * 64) by lia.
        replace (byte_val c0 * 65536) with (byte_val c0 * 1024 * 64) by lia.
        rewrite !Z_mod_mult. reflexivity. }
    f_equal. apply byte_val_inj. lia.
  - (* two bytes *)
    injection H as H1 H2 H3. rewrite !val2_eq in H1, H2, H3.
    pose proof (byte_val_range a0). pose proof (byte_val_range a1).
    pose proof (byte_val_range c0). pose proof (byte_val_range c1).
    assert (byte_val a0 * 65536 + byte_val a1 * 256 = byte_val c0 * 65536 + byte_val c1 * 256).
    { apply sextets_inj; try lia; try assumption.
      replace (byte_val a0 * 65536 + byte_val a1 * 256) with ((byte_val a0 * 1024 + byte_val a1 * 4) * 64) by lia.
      replace (byte_val c0 * 65536 + byte_val c1 * 256) with ((byte_val c0 * 1024 + byte_val c1 * 4) * 64) by lia.
      rewrite !Z_mod_mult. reflexivity. }
    f_equal; [|f_equal]; apply byte_val_inj; lia.
  - (* a full group *)
    injection H as H1 H2 H3 H4 H5. rewrite !val3_eq in H1, H2, H3, H4.
    pose proof (byte_val_range a0). pose proof (byte_val_range a1). pose proof (byte_val_range a2).
    pose proof (byte_val_range c0). pose proof (byte_val_range c1). pose proof (byte_val_range c2).
    set (v := byte_val a0 * 65536 + byte_val a1 * 256 + byte_val a2) in *.
    set (w := byte_val c0 * 65536 + byte_val c1 * 256 + byte_val c2) in *.
    assert (v = w).
    { apply sextets_inj; try (subst v w; lia); try assumption.
      apply enc_char_inj in H4; try apply land63_range.
      change 63 with (Z.ones 6) in H4. rewrite !Z.land_ones in H4 by lia. exact H4. }
    subst v w.
    assert (byte_val a0 = byte_val c0 /\ byte_val a1 = byte_val c1 /\ byte_val a2 = byte_val c2) as (E0 & E1 & E2) by lia.
    apply byte_val_inj in E0, E1, E2. subst. f_equal; f_equal; f_equal.
    apply IH; [simpl; lia | exact H5].
Qed.

Lemma EncodedLen_step n : EncodedLen (S (S (S n))) = (4 + EncodedLen n)%nat.
Proof.
  unfold EncodedLen. replace (S (S (S n))) with (n + 1 * 3)%nat by lia.
  rewrite Nat.div_add, Nat.Div0.mod_add by lia. lia.
Qed.

Lemma b64_encode_length src : length (b64_encode src) = EncodedLen (length src).
Proof.
  induction src as [src IH] using (induction_ltof1 _ (@length _)). unfold ltof in IH.
  destruct src as [|a0 [|a1 [|a2 r]]]; try reflexivity.
  cbn [b64_encode length]. rewrite EncodedLen_step, IH by (simpl; lia). reflexivity.
Qed.

Lemma b64_encode_alphabet src :
  Forall (fun c => c ∈ String.list_ascii_of_string encodeURL) (b64_encode src).
Proof.
  induction src as [src IH] using (induction_ltof1 _ (@length _)). unfold ltof in IH.
  destruct src as [|a0 [|a1 [|a2 r]]]; cbn [b64_encode];
    repeat (apply Forall_cons_2; [apply enc_char_in, land63_range|]);
    [constructor..|apply IH; simpl; lia].
Qed.

Lemma length_string_of_list_ascii l : String.length (String.string_of_list_ascii l) = length l.
Proof. induction l; simpl; congruence. Qed.

Lemma EncodeToString_list src :
  String.list_ascii_of_string (EncodeToString src) = b64_encode src.
Proof. apply String.list_ascii_of_string_of_list_ascii. Qed.

Lemma generateToken_nine b :
  length b = 9%nat ->
  generateToken (Some b) = Some (EncodeToString b) /\
  String.length (EncodeToString b) = 12%nat /\ slice8_ok (EncodeToString b) = true.
Proof.
  intros Hb. pose proof (b64_encode_length b) as Hl. rewrite Hb in Hl.
  assert (E : String.length (EncodeToString b) = 12%nat)
    by (unfold EncodeToString; rewrite length_string_of_list_ascii; exact Hl).
  unfold slice8_ok. rewrite E. split_and!; reflexivity.
Qed.


(** A store for the handler witnesses: the token must be at least 8
    characters long for the handlers to reach the use case. *)
Definition demo_token : string := "tok12345".
Definition demo_http_ops : list Op :=
  [OpCreate 0 100 (Some demo_token); OpSubmitOffer 10 demo_token (Some demo_offer)].
Definition demo_http_store : store := run_ops ∅ demo_http_ops.

(** X11: [RawURLEncoding.EncodeToString] of [n] bytes has
    [EncodedLen n] characters ([n/3*4 + (n%3*8+5)/6], no padding), all
    taken from the URL-safe alphabet. *)
Theorem X11_EncodeToString_shape (src : list Byte.byte) :
  String.length (EncodeToString src) = EncodedLen (length src) /\
  Forall (fun c => c ∈ String.list_ascii_of_string encodeURL)
    (String.list_ascii_of_string (EncodeToString src)).
Proof.
  split.
  - unfold EncodeToString. rewrite length_string_of_list_ascii. apply b64_encode_length.
  - rewrite EncodeToString_list. apply b64_encode_alphabet.
Qed.

(** X12: the encoding loses nothing: two byte strings with the same
    encoding are equal, so distinct random draws give distinct tokens. *)
Theorem X12_EncodeToString_injective (b1 b2 : list Byte.byte)
    (H : EncodeToString b1 = EncodeToString b2) : b1 = b2.
Proof.
  apply b64_encode_inj. rewrite <- !EncodeToString_list. by rewrite H.
Qed.

Lemma X12_EncodeToString_injective_witness :
  EncodeToString [Byte.x00; Byte.xff] = EncodeToString [Byte.x00; Byte.xff] /\
  [Byte.x00; Byte.xff] = [Byte.x00; Byte.xff].
Proof. split; [reflexivity|]. apply X12_EncodeToString_injective. reflexivity. Defined.

(** X13: [generateToken] returns no token when [rand.Read] fails; on a
    9-byte draw it returns its encoding, a 12-character token of the
    URL-safe alphabet, long enough for the [token[:8]] slices. *)
Theorem X13_generateToken (rnd : option (list Byte.byte)) :
  (rnd = None -> generateToken rnd = None) /\
  (forall b, rnd = Some b -> length b = 9%nat ->
     exists t, generateToken rnd = Some t /\ t = EncodeToString b /\
       String.length t = 12%nat /\ slice8_ok t = true /\
       Forall (fun c => c ∈ String.list_ascii_of_string encodeURL)
         (String.list_ascii_of_string t)).
Proof.
  split; [by intros ->|]. intros b -> Hb. exists (EncodeToString b).
  destruct (generateToken_nine b Hb) as (Hg & Hl & Hs).
  rewrite EncodeToString_list. split_and!; try done. apply b64_encode_alphabet.
Qed.

(** X14: a token shorter than 8 characters (an absent [token] query
    parameter included) makes every submit and get handler panic on its
    [token[:8]] log slice, before the payload is validated and without any
    change to the store. *)
Theorem X14_short_token_panics (st : store) (now : Z) (t : string)
    (o : option WebRTCOffer) (a : option WebRTCAnswer)
    (Hlen : (String.length t < 8)%nat) :
  handleGetOffer st now t = Panic /\ handleGetAnswer st now t = Panic /\
  handleSubmitOffer st now (Ok (mkSubmitOfferRequest t o)) = (st, Panic) /\
  handleSubmitAnswer st now (Ok (mkSubmitAnswerRequest t a)) = (st, Panic).
Proof.
  assert (Hs : slice8_ok t = false) by (unfold slice8_ok; apply Nat.leb_gt; lia).
  unfold handleGetOffer, handleGetAnswer, handleSubmitOffer, handleSubmitAnswer; simpl.
  by rewrite Hs.
Qed.

Lemma X14_short_token_panics_witness :
  HandleOffer demo_http_store 20 MethodGet (Err "EOF") EmptyString = (demo_http_store, Panic).
Proof.
  exact (f_equal (pair demo_http_store)
    (proj1 (X14_short_token_panics demo_http_store 20 EmptyString None None
              ltac:(simpl; lia)))).
Defined.



(** X16: in a reachable store, a second well-formed offer on a live
    session that already holds one is answered 500 "internal server error"
    (the ad hoc "cannot accept offer" error has no case of its own in
    [handleUseCaseError]), and the store is unchanged. *)
Theorem X16_second_offer_500 (st : store) (now : Z) (t : string) (s : Session)
    (o : option WebRTCOffer) (Hr : reachable st)
    (Hlen : (8 <= String.length t)%nat) (Hs : st !! t = Some s)
    (Ho : Offer s <> None) (Hlive : (now <= ExpiresAt s)%Z)
    (Hv : Offer_IsValid o = true) :
  handleSubmitOffer st now (Ok (mkSubmitOfferRequest t o)) =
    (st, Respond 500 (ErrorBody "internal server error")).
Proof.
  destruct (reachable_invariants st Hr) as [_ Hh].
  destruct (Hh t s Hs) as [_ Hact]. specialize (Hact Ho).
  assert (Hsl : slice8_ok t = true) by (unfold slice8_ok; apply Nat.leb_le; lia).
  apply IsExpired_false_iff in Hlive.
  unfold handleSubmitOffer, SubmitOffer; simpl. rewrite Hsl, Hv; simpl.
  rewrite (GetSession_lookup st t s Hs), Hlive.
  unfold CanAcceptOffer. rewrite Hact. reflexivity.
Qed.

Lemma X16_second_offer_500_witness :
  handleSubmitOffer demo_http_store 20
    (Ok (mkSubmitOfferRequest demo_token (Some demo_offer))) =
    (demo_http_store, Respond 500 (ErrorBody "internal server error")).
Proof.
  apply (X16_second_offer_500 demo_http_store 20 demo_token
           (set_Status (set_Offer (mkSession demo_token None None 0 100 SessionStatusPending)
              (Some demo_offer)) SessionStatusActive)).
  - exists demo_http_ops. reflexivity.
  - vm_compute. lia.
  - reflexivity.
  - discriminate.
  - simpl. lia.
  - reflexivity.
Defined.

(** X17: with a token of at least 8 characters, [GET /api/offer] and
    [GET /api/answer] always respond, with 200, 404 or 410. *)
Theorem X17_get_handlers_codes (st : store) (now : Z) (t : string)
    (Hlen : (8 <= String.length t)%nat) :
  (exists c, resp_code (handleGetOffer st now t) = Some c /\ In c [200; 404; 410]) /\
  (exists c, resp_code (handleGetAnswer st now t) = Some c /\ In c [200; 404; 410]).
Proof.
  assert (Hs : slice8_ok t = true) by (unfold slice8_ok; apply Nat.leb_le; lia).
  unfold handleGetOffer, handleGetAnswer, GetOffer, GetAnswer. rewrite Hs. simpl.
  destruct (GetSession st t) as [s|]; simpl.
  - destruct (IsExpired now s); simpl.
    + split; eexists; split; try reflexivity; simpl; tauto.
    + destruct (Offer s), (Answer s); simpl;
        split; eexists; split; try reflexivity; simpl; tauto.
  - split; eexists; split; try reflexivity; simpl; tauto.
Qed.

Lemma X17_get_handlers_codes_witness :
  (exists c, resp_code (handleGetOffer demo_http_store 20 demo_token) = Some c /\
     In c [200; 404; 410]) /\
  (exists c, resp_code (handleGetAnswer demo_http_store 20 demo_token) = Some c /\
     In c [200; 404; 410]).
Proof. apply X17_get_handlers_codes. vm_compute. lia. Defined.



Lemma X13_generateToken_witness :
  exists t, generateToken (Some (repeat Byte.x00 9)) = Some t /\
    t = EncodeToString (repeat Byte.x00 9) /\ String.length t = 12%nat /\
    slice8_ok t = true /\
    Forall (fun c => c ∈ String.list_ascii_of_string encodeURL)
      (String.list_ascii_of_string t).
Proof. exact (proj2 (X13_generateToken (Some (repeat Byte.x00 9))) _ eq_refl eq_refl). Defined.

Lemma X11_EncodeToString_shape_witness :
  String.length (EncodeToString (repeat Byte.x00 9)) = EncodedLen 9.
Proof. exact (proj1 (X11_EncodeToString_shape (repeat Byte.x00 9))). Defined.


